(** * Shallow embedding of the particle compute node of bevy_gpu_compute
    (src/main.rs): setup, prepare_bind_group, ParticleNode::update and
    ParticleNode::run, and the per-frame schedule of the render world. *)

From Stdlib Require Import List String Ascii Arith ZArith Lia.
Import ListNotations.
Open Scope string_scope.

(** ** Constants (main.rs, lines 20-25) *)

Definition SHADER_COMPUTE_PATH : string := "compute.wgsl".
Definition DISPLAY_FACTOR : nat := 4.
Definition SIZE : nat * nat := (1280 / DISPLAY_FACTOR, 720 / DISPLAY_FACTOR).
Definition WORKGROUP_SIZE : nat := 8.

Definition newline : string := String (ascii_of_nat 10) EmptyString.

(** ** Panics.  A Rust panic is reported with its source line and its
    message; the line identifies which [unwrap], [panic!] or lookup failed. *)

Inductive panic : Type :=
| Panic (line : nat) (msg : string).

Definition unwrap_none_msg : string :=
  "called `Option::unwrap()` on a `None` value".

(** Rust code that may panic returns a [result]. *)
Inductive result (A : Type) : Type :=
| Done (a : A)
| Panicked (p : panic).
Arguments Done {A} a.
Arguments Panicked {A} p.

Definition bind {A B} (m : result A) (f : A -> result B) : result B :=
  match m with
  | Done a => f a
  | Panicked p => Panicked p
  end.

Notation "x <- m ;; k" := (bind m (fun x => k))
  (at level 61, m at next level, right associativity).

(** [Option::unwrap] at a given source line. *)
Definition unwrap {A} (line : nat) (o : option A) : result A :=
  match o with
  | Some a => Done a
  | None => Panicked (Panic line unwrap_none_msg)
  end.

(** ** Data model *)

(** [Particle] with its [Vec3] fields as integer triples (only [Vec3::ZERO]
    is ever written by the core). *)
Record Vec3 := { x : Z; y : Z; z : Z }.
Definition Vec3_ZERO : Vec3 := {| x := 0; y := 0; z := 0 |}%Z.

Record Particle := { position : Vec3; velocity : Vec3 }.

Record ParticleConfig := { particle_count : nat }.

(** The pipeline-cache identifiers of the two compute pipelines. *)
Inductive CachedComputePipelineId := InitPipelineId | UpdatePipelineId.

(** A compiled compute pipeline, identified by its entry point. *)
Record ComputePipeline := { entry_point : string }.

Definition pipeline_entry (id : CachedComputePipelineId) : string :=
  match id with
  | InitPipelineId => "init"
  | UpdatePipelineId => "update"
  end.

(** [CachedPipelineState] of bevy's pipeline cache. *)
Inductive CachedPipelineState :=
| Queued
| Creating
| Ok
| Err (err : string).

Definition is_ok (st : CachedPipelineState) : bool :=
  match st with Ok => true | _ => false end.

(** The device buffer of the storage asset once it has been prepared. *)
Record GpuShaderStorageBuffer := { buffer_id : nat }.

(** A bind group: its serial number among all bind groups created, and its
    entries (binding, buffer). *)
Inductive BufferRef := StorageBuffer (id : nat) | ConfigBuffer.

Record BindGroup := {
  bind_group_serial : nat;
  bind_group_entries : list (nat * BufferRef)
}.

(** What the render world sees in one frame: the [RenderAssets] lookup of the
    storage buffer, and the pipeline cache's states of both pipelines. *)
Record FrameInput := {
  storage_asset : option GpuShaderStorageBuffer;
  init_state : CachedPipelineState;
  update_state : CachedPipelineState
}.

Definition get_compute_pipeline_state (fi : FrameInput)
    (id : CachedComputePipelineId) : CachedPipelineState :=
  match id with
  | InitPipelineId => init_state fi
  | UpdatePipelineId => update_state fi
  end.

(** [PipelineCache::get_compute_pipeline]: [Some] exactly when the state is
    [Ok]; the pipeline is the one compiled from the descriptor queued under
    that id in [ParticleComputePipeline::from_world] (lines 276-291). *)
Definition get_compute_pipeline (fi : FrameInput)
    (id : CachedComputePipelineId) : option ComputePipeline :=
  match get_compute_pipeline_state fi id with
  | Ok => Some {| entry_point := pipeline_entry id |}
  | _ => None
  end.

(** The render-world resources the core owns: the [ParticleBindGroups]
    resource (absent until first inserted), the number of bind groups the
    device has created, and the contents of the config buffer. *)
Record RenderWorld := {
  particle_bind_groups : option BindGroup;
  bind_groups_created : nat;
  config_buffer : ParticleConfig
}.

(** ** setup (lines 112-154): the particle array and the config. *)
Definition setup : list Particle * ParticleConfig :=
  let particle_count := 1000 in
  let particles :=
    repeat {| position := Vec3_ZERO; velocity := Vec3_ZERO |} particle_count in
  let particle_config := {| particle_count := particle_count |} in
  (particles, particle_config).

(** The render world when the first frame starts. *)
Definition initial_world : RenderWorld :=
  {| particle_bind_groups := None;
     bind_groups_created := 0;
     config_buffer := snd setup |}.

(** ** prepare_bind_group (lines 200-236), run every frame in
    [RenderSet::Prepare]. *)
Definition create_bind_group (w : RenderWorld) (sb : GpuShaderStorageBuffer)
    : BindGroup * RenderWorld :=
  let bg := {| bind_group_serial := bind_groups_created w;
               bind_group_entries :=
                 [(100, StorageBuffer (buffer_id sb)); (101, ConfigBuffer)] |} in
  (bg, {| particle_bind_groups := particle_bind_groups w;
          bind_groups_created := S (bind_groups_created w);
          config_buffer := config_buffer w |}).

Definition prepare_bind_group (w : RenderWorld)
    (render_assets : option GpuShaderStorageBuffer) : result RenderWorld :=
  storage_buffer <- unwrap 217 render_assets ;;
  let '(particle_bind_group, w1) := create_bind_group w storage_buffer in
  Done {| particle_bind_groups := Some particle_bind_group;
          bind_groups_created := bind_groups_created w1;
          config_buffer := config_buffer w1 |}.

(** ** ParticleNode *)

Inductive ParticleState :=
| Loading
| Init
| Update (phase : nat).

Definition ParticleNode_default : ParticleState := Loading.

(** [ParticleNode::update] (lines 320-356). *)
Definition node_update (state : ParticleState) (fi : FrameInput)
    : result ParticleState :=
  match state with
  | Loading =>
      match get_compute_pipeline_state fi InitPipelineId with
      | Ok => Done Init
      | Err err =>
          Panicked (Panic 333 ("Initializing assets/" ++ SHADER_COMPUTE_PATH
                                ++ ":" ++ newline ++ err))
      | _ => Done Loading
      end
  | Init =>
      match get_compute_pipeline_state fi UpdatePipelineId with
      | Ok => Done (Update 1)
      | _ => Done Init
      end
  | Update 0 => Done (Update 1)
  | Update 1 => Done (Update 0)
  | Update _ => Panicked (Panic 354 "internal error: entered unreachable code")
  end.

(** The commands recorded into the frame's compute pass. *)
Inductive PassCommand :=
| NoDispatch
| Dispatch (group_index : nat) (bind_group : BindGroup)
           (pipeline : ComputePipeline) (workgroups : nat * nat * nat).

(** [World::resource::<ParticleBindGroups>()] panics when absent. *)
Definition resource_bind_groups (line : nat) (w : RenderWorld) : result BindGroup :=
  match particle_bind_groups w with
  | Some bg => Done bg
  | None => Panicked (Panic line "Requested resource ParticleBindGroups does not exist in the `World`.")
  end.

(** [ParticleNode::run] (lines 358-399). *)
Definition node_run (state : ParticleState) (w : RenderWorld) (fi : FrameInput)
    : result PassCommand :=
  match state with
  | Loading => Done NoDispatch
  | Init =>
      bind_group <- resource_bind_groups 377 w ;;
      init_pipeline <- unwrap 381 (get_compute_pipeline fi InitPipelineId) ;;
      Done (Dispatch 0 bind_group init_pipeline
              (fst SIZE / WORKGROUP_SIZE, snd SIZE / WORKGROUP_SIZE, 1))
  | Update index =>
      bind_group <- resource_bind_groups 387 w ;;
      update_pipeline <- unwrap 391 (get_compute_pipeline fi UpdatePipelineId) ;;
      Done (Dispatch 0 bind_group update_pipeline
              (fst SIZE / WORKGROUP_SIZE, snd SIZE / WORKGROUP_SIZE, 1))
  end.

(** ** One frame of the render app: [prepare_bind_group] in
    [RenderSet::Prepare], then the render graph runs the node's [update]
    followed by its [run]. *)
Definition frame (state : ParticleState) (w : RenderWorld) (fi : FrameInput)
    : result (ParticleState * RenderWorld * PassCommand) :=
  w' <- prepare_bind_group w (storage_asset fi) ;;
  state' <- node_update state fi ;;
  cmd <- node_run state' w' fi ;;
  Done (state', w', cmd).

(** What a frame leaves behind: a completed frame, or the panic that
    terminates the process. *)
Inductive FrameLog :=
| FRan (state : ParticleState) (w : RenderWorld) (cmd : PassCommand)
| FPanicked (p : panic).

(** The frames of a session; the process ends at the first panic. *)
Fixpoint run_frames (state : ParticleState) (w : RenderWorld)
    (inputs : list FrameInput) : list FrameLog :=
  match inputs with
  | [] => []
  | fi :: rest =>
      match frame state w fi with
      | Panicked p => [FPanicked p]
      | Done (state', w', cmd) => FRan state' w' cmd :: run_frames state' w' rest
      end
  end.

(** The successive states of the node under repeated [update] calls. *)
Fixpoint update_trace (state : ParticleState) (inputs : list FrameInput)
    : list ParticleState :=
  match inputs with
  | [] => []
  | fi :: rest =>
      match node_update state fi with
      | Panicked _ => []
      | Done state' => state' :: update_trace state' rest
      end
  end.

(** The entry point of the pipeline a pass command dispatches. *)
Definition dispatched_program (c : PassCommand) : option string :=
  match c with
  | NoDispatch => None
  | Dispatch _ _ p _ => Some (entry_point p)
  end.

(** [prepare_bind_group] called [n] times in a row with the same lookup. *)
Fixpoint prepare_bind_group_n (n : nat) (w : RenderWorld)
    (render_assets : option GpuShaderStorageBuffer) : result RenderWorld :=
  match n with
  | 0 => Done w
  | S n' => w' <- prepare_bind_group w render_assets ;;
            prepare_bind_group_n n' w' render_assets
  end.

(** How far along Loading -> Init -> Update a state is. *)
Definition stage (s : ParticleState) : nat :=
  match s with
  | Loading => 0
  | Init => 1
  | Update _ => 2
  end.

Definition is_update (s : ParticleState) : bool :=
  match s with Update _ => true | _ => false end.

(** The states reachable by [update] calls from [ParticleNode::default]. *)
Inductive reachable : ParticleState -> Prop :=
| reachable_default : reachable ParticleNode_default
| reachable_update : forall s fi s',
    reachable s -> node_update s fi = Done s' -> reachable s'.

(** A pipeline's compile state never leaves [Ok] once there, over a sequence
    of frames. *)
Fixpoint never_reverses (f : FrameInput -> CachedPipelineState)
    (inputs : list FrameInput) : Prop :=
  match inputs with
  | [] => True
  | fi :: rest =>
      (is_ok (f fi) = true -> Forall (fun g => is_ok (f g) = true) rest)
      /\ never_reverses f rest
  end.

(** [s] contains [sub]. *)
Definition contains (s sub : string) : Prop :=
  exists pre post, s = pre ++ sub ++ post.

(** ** ParticleComputePipeline::from_world (lines 245-298) *)

Inductive BufferBindingType :=
| Storage (read_only : bool)
| Uniform.

Record BindGroupLayoutEntry := {
  layout_binding : nat;
  layout_ty : BufferBindingType;
  min_binding_size : option nat
}.

(** [ParticleConfig::min_size()]: the WGSL size of a struct with one [u32]. *)
Definition ParticleConfig_min_size : nat := 4.

Definition particle_bind_group_layout : list BindGroupLayoutEntry :=
  [ {| layout_binding := 100; layout_ty := Storage false; min_binding_size := None |};
    {| layout_binding := 101; layout_ty := Uniform;
       min_binding_size := Some ParticleConfig_min_size |} ].

Record ComputePipelineDescriptor := {
  desc_layout : list (list BindGroupLayoutEntry);
  desc_shader : string;
  desc_shader_defs : list string;
  desc_entry_point : string
}.

Record ParticleComputePipeline := {
  pipeline_layout : list BindGroupLayoutEntry;
  init_pipeline : ComputePipelineDescriptor;
  update_pipeline : ComputePipelineDescriptor
}.

Definition from_world : ParticleComputePipeline :=
  let shader := SHADER_COMPUTE_PATH in
  {| pipeline_layout := particle_bind_group_layout;
     init_pipeline := {| desc_layout := [particle_bind_group_layout];
                         desc_shader := shader; desc_shader_defs := [];
                         desc_entry_point := "init" |};
     update_pipeline := {| desc_layout := [particle_bind_group_layout];
                           desc_shader := shader; desc_shader_defs := [];
                           desc_entry_point := "update" |} |}.

(** ** Buffers created by setup (lines 123-150) *)

Inductive BufferUsages := STORAGE | UNIFORM | COPY_DST.

Definition BufferUsages_eqb (a b : BufferUsages) : bool :=
  match a, b with
  | STORAGE, STORAGE | UNIFORM, UNIFORM | COPY_DST, COPY_DST => true
  | _, _ => false
  end.

Definition storage_buffer_usage : list BufferUsages := [STORAGE; COPY_DST].
Definition config_buffer_usage : list BufferUsages := [UNIFORM; COPY_DST].

(** [bytemuck::cast_slice] of one [u32] on a little-endian target: its four
    bytes, least significant first. *)
Definition u32_to_le_bytes (n : Z) : list Z :=
  [n mod 256; (n / 256) mod 256; (n / 256 / 256) mod 256;
   (n / 256 / 256 / 256) mod 256]%Z.

(** Reading the four bytes back as a [u32] (as the shader's uniform does). *)
Definition u32_from_le_bytes (bs : list Z) : option Z :=
  match bs with
  | [b0; b1; b2; b3] => Some (b0 + 256 * (b1 + 256 * (b2 + 256 * b3)))%Z
  | _ => None
  end.

(** The contents of the config buffer: [cast_slice(&[particle_config])]. *)
Definition config_bytes (c : ParticleConfig) : list Z :=
  u32_to_le_bytes (Z.of_nat (particle_count c)).

(** The usages and, where the core knows it, the byte size of each buffer a
    bind group can reference. *)
Definition buffer_usages (r : BufferRef) : list BufferUsages :=
  match r with
  | StorageBuffer _ => storage_buffer_usage
  | ConfigBuffer => config_buffer_usage
  end.

Definition buffer_size (r : BufferRef) : option nat :=
  match r with
  | StorageBuffer _ => None
  | ConfigBuffer => Some (List.length (config_bytes (snd setup)))
  end.

(** A buffer fits a layout entry: the usage its binding type needs, and at
    least the minimum binding size. *)
Definition entry_fits (le : BindGroupLayoutEntry) (r : BufferRef) : bool :=
  let needed := match layout_ty le with Storage _ => STORAGE | Uniform => UNIFORM end in
  existsb (BufferUsages_eqb needed) (buffer_usages r) &&
  match min_binding_size le with
  | None => true
  | Some m => match buffer_size r with Some s => Nat.leb m s | None => false end
  end.

(** A bind group matches a layout: each layout entry has exactly one entry
    of the same binding, which fits it, and no entry has a binding outside
    the layout. *)
Definition bind_group_matches (layout : list BindGroupLayoutEntry)
    (entries : list (nat * BufferRef)) : bool :=
  forallb (fun le =>
    match filter (fun e => Nat.eqb (fst e) (layout_binding le)) entries with
    | [(_, r)] => entry_fits le r
    | _ => false
    end) layout &&
  forallb (fun e => existsb (fun le => Nat.eqb (fst e) (layout_binding le)) layout)
    entries.

(** ** The particle entities spawned by setup (lines 157-165): each one gets a
    freshly added mesh asset, the shared material and its particle's
    position. *)
Record MaterialMeshBundle := {
  mesh : nat;
  material : nat;
  translation : Vec3
}.

Fixpoint spawn_particles (next_mesh : nat) (material_handle : nat)
    (particles : list Particle) : list MaterialMeshBundle :=
  match particles with
  | [] => []
  | particle :: rest =>
      {| mesh := next_mesh; material := material_handle;
         translation := position particle |}
      :: spawn_particles (S next_mesh) material_handle rest
  end.

Definition setup_entities (next_mesh material_handle : nat) : list MaterialMeshBundle :=
  spawn_particles next_mesh material_handle (fst setup).

(** The state and dispatched program of each completed frame; [None] for a
    panic. *)
Definition frame_summary (l : FrameLog) : option (ParticleState * option string) :=
  match l with
  | FRan s _ c => Some (s, dispatched_program c)
  | FPanicked _ => None
  end.

Definition panic_line (p : panic) : nat :=
  match p with Panic l _ => l end.

(** ** Sample runs *)

Definition sb0 : GpuShaderStorageBuffer := {| buffer_id := 7 |}.

Definition fi_pending : FrameInput :=
  {| storage_asset := Some sb0; init_state := Creating; update_state := Queued |}.
Definition fi_init_ok : FrameInput :=
  {| storage_asset := Some sb0; init_state := Ok; update_state := Creating |}.
Definition fi_all_ok : FrameInput :=
  {| storage_asset := Some sb0; init_state := Ok; update_state := Ok |}.

Example sample_update_trace :
  update_trace Loading [fi_pending; fi_init_ok; fi_init_ok; fi_all_ok; fi_all_ok; fi_all_ok]
  = [Loading; Init; Init; Update 1; Update 0; Update 1].
Proof. reflexivity. Qed.

Example sample_run_frames :
  map (fun l => match l with FRan _ _ c => dispatched_program c | FPanicked _ => Some "panic" end)
      (run_frames Loading initial_world [fi_pending; fi_init_ok; fi_all_ok; fi_all_ok])
  = [None; Some "init"; Some "update"; Some "update"].
Proof. reflexivity. Qed.

Example sample_grid : (fst SIZE / WORKGROUP_SIZE, snd SIZE / WORKGROUP_SIZE) = (40, 22).
Proof. reflexivity. Qed.

(** ** Lemmas *)

Lemma node_update_stage : forall s fi s',
  node_update s fi = Done s' -> stage s <= stage s'.
Proof.
  intros s fi s' H.
  destruct s as [| |[|[|n]]]; simpl in H.
  - destruct (init_state fi); inversion H; subst; simpl; lia.
  - destruct (update_state fi); inversion H; subst; simpl; lia.
  - inversion H; subst; simpl; lia.
  - inversion H; subst; simpl; lia.
  - discriminate H.
Qed.

Lemma update_trace_stage : forall xs s t,
  In t (update_trace s xs) -> stage s <= stage t.
Proof.
  induction xs as [|fi rest IH]; intros s t Hin; simpl in Hin; [contradiction|].
  destruct (node_update s fi) as [s'|p] eqn:E; [|contradiction].
  apply node_update_stage in E.
  destruct Hin as [<-|Hin]; [exact E|].
  specialize (IH _ _ Hin). lia.
Qed.

Lemma update_trace_stage_mono : forall xs s i j si sj,
  i <= j ->
  nth_error (s :: update_trace s xs) i = Some si ->
  nth_error (s :: update_trace s xs) j = Some sj ->
  stage si <= stage sj.
Proof.
  induction xs as [|fi rest IH]; intros s i j si sj Hij Hi Hj.
  - destruct i, j; simpl in *; try lia;
      try (destruct i || destruct j); try discriminate.
    inversion Hi; inversion Hj; subst; lia.
  - destruct i as [|i].
    + simpl in Hi; inversion Hi; subst si.
      destruct j as [|j]; [simpl in Hj; inversion Hj; subst; lia|].
      apply (update_trace_stage (fi :: rest) s sj).
      simpl in Hj. apply nth_error_In in Hj. exact Hj.
    + destruct j as [|j]; [lia|].
      simpl in Hi, Hj.
      destruct (node_update s fi) as [s'|p] eqn:E.
      * apply (IH s' i j); [lia | exact Hi | exact Hj].
      * destruct i; discriminate.
Qed.

Lemma prepare_bind_group_some : forall w sb,
  prepare_bind_group w (Some sb) =
  Done {| particle_bind_groups :=
            Some {| bind_group_serial := bind_groups_created w;
                    bind_group_entries :=
                      [(100, StorageBuffer (buffer_id sb)); (101, ConfigBuffer)] |};
          bind_groups_created := S (bind_groups_created w);
          config_buffer := config_buffer w |}.
Proof. reflexivity. Qed.


Lemma string_append_empty_r : forall s, s ++ "" = s.
Proof. induction s as [|c s IH]; simpl; [reflexivity | rewrite IH; reflexivity]. Qed.

(** The pipeline [run] selects in each state. *)
Definition selected_pipeline (s : ParticleState) : option CachedComputePipelineId :=
  match s with
  | Loading => None
  | Init => Some InitPipelineId
  | Update _ => Some UpdatePipelineId
  end.

Lemma node_run_spec : forall s w fi c,
  node_run s w fi = Done c ->
  match selected_pipeline s with
  | None => c = NoDispatch
  | Some id =>
      exists bg, particle_bind_groups w = Some bg /\
                 get_compute_pipeline fi id <> None /\
                 c = Dispatch 0 bg {| entry_point := pipeline_entry id |} (40, 22, 1)
  end.
Proof.
  intros s w fi c H.
  destruct s; simpl in *.
  - inversion H; reflexivity.
  - unfold resource_bind_groups, get_compute_pipeline in H.
    destruct (particle_bind_groups w) as [bg|]; [|discriminate H].
    unfold get_compute_pipeline. simpl in *.
    destruct (init_state fi); simpl in H; try discriminate H.
    inversion H. exists bg. repeat split; congruence.
  - unfold resource_bind_groups, get_compute_pipeline in H.
    destruct (particle_bind_groups w) as [bg|]; [|discriminate H].
    unfold get_compute_pipeline. simpl in *.
    destruct (update_state fi); simpl in H; try discriminate H.
    inversion H. exists bg. repeat split; congruence.
Qed.

Lemma frame_done_inv : forall s w fi s' w' c,
  frame s w fi = Done (s', w', c) ->
  prepare_bind_group w (storage_asset fi) = Done w' /\
  node_update s fi = Done s' /\
  node_run s' w' fi = Done c.
Proof.
  intros s w fi s' w' c H. unfold frame in H.
  destruct (prepare_bind_group w (storage_asset fi)) as [w1|p]; simpl in H; [|discriminate H].
  destruct (node_update s fi) as [s1|p]; simpl in H; [|discriminate H].
  destruct (node_run s1 w1 fi) as [c1|p] eqn:E; simpl in H; [|discriminate H].
  inversion H; subst. auto.
Qed.

Lemma frame_panicked_inv : forall s w fi p,
  frame s w fi = Panicked p ->
  prepare_bind_group w (storage_asset fi) = Panicked p \/
  exists w', prepare_bind_group w (storage_asset fi) = Done w' /\
    (node_update s fi = Panicked p \/
     exists s', node_update s fi = Done s' /\ node_run s' w' fi = Panicked p).
Proof.
  intros s w fi p H. unfold frame in H.
  destruct (prepare_bind_group w (storage_asset fi)) as [w1|p1]; simpl in H;
    [|inversion H; auto].
  right. exists w1. split; [reflexivity|].
  destruct (node_update s fi) as [s1|p1]; simpl in H; [|inversion H; auto].
  right. exists s1. split; [reflexivity|].
  destruct (node_run s1 w1 fi); simpl in H; [discriminate H | inversion H; reflexivity].
Qed.

Lemma run_frames_ran_inv : forall inps s w i s' w' c,
  nth_error (run_frames s w inps) i = Some (FRan s' w' c) ->
  exists s0 w0 fi, frame s0 w0 fi = Done (s', w', c).
Proof.
  induction inps as [|fi rest IH]; intros s w i s' w' c H; simpl in H.
  - destruct i; discriminate H.
  - destruct (frame s w fi) as [[[s1 w1] c1]|p] eqn:E.
    + destruct i as [|i]; simpl in H.
      * inversion H; subst. eauto.
      * eapply IH; exact H.
    + destruct i as [|[|i]]; discriminate H.
Qed.

Lemma frame_from_loading : forall w fi s' w' c,
  frame Loading w fi = Done (s', w', c) ->
  (s' = Loading /\ c = NoDispatch) \/ (s' = Init /\ dispatched_program c = Some "init").
Proof.
  intros w fi s' w' c H.
  apply frame_done_inv in H as [_ [Hu Hr]].
  simpl in Hu. destruct (init_state fi); inversion Hu; subst.
  - left. simpl in Hr. inversion Hr. auto.
  - left. simpl in Hr. inversion Hr. auto.
  - right. split; [reflexivity|].
    apply node_run_spec in Hr. simpl in Hr.
    destruct Hr as [bg [_ [_ ->]]]. reflexivity.
Qed.

(** Every dispatch carries the bind group of the frame's world. *)
Lemma frame_dispatch_bind_group : forall s w fi s' w' c,
  frame s w fi = Done (s', w', c) ->
  c = NoDispatch \/
  exists bg p grid, c = Dispatch 0 bg p grid /\ particle_bind_groups w' = Some bg.
Proof.
  intros s w fi s' w' c H.
  apply frame_done_inv in H as [_ [_ Hr]].
  apply node_run_spec in Hr.
  destruct (selected_pipeline s'); [right | left; exact Hr].
  destruct Hr as [bg [Hbg [_ ->]]]. eauto.
Qed.


Lemma update_trace_alternates : forall xs p i,
  p <= 1 -> i < List.length xs ->
  nth_error (update_trace (Update p) xs) i
  = Some (Update (if Nat.even i then 1 - p else p)).
Proof.
  induction xs as [|fi rest IH]; intros p i Hp Hi; simpl in Hi; [lia|].
  assert (Hu : node_update (Update p) fi = Done (Update (1 - p)))
    by (destruct p as [|[|p]]; [reflexivity | reflexivity | lia]).
  cbn [update_trace]. rewrite Hu.
  destruct i as [|i]; [reflexivity|].
  cbn [nth_error]. rewrite (IH (1 - p) i); [|lia|lia].
  rewrite Nat.even_succ, <- Nat.negb_even.
  destruct (Nat.even i); cbn [negb]; f_equal; f_equal; lia.
Qed.

Lemma node_update_reachable_shape : forall s fi s',
  s = Loading \/ s = Init \/ s = Update 0 \/ s = Update 1 ->
  node_update s fi = Done s' ->
  s' = Loading \/ s' = Init \/ s' = Update 0 \/ s' = Update 1.
Proof.
  intros s fi s' Hs H.
  destruct Hs as [->|[->|[->| ->]]]; simpl in H.
  - destruct (init_state fi); inversion H; auto.
  - destruct (update_state fi); inversion H; auto.
  - inversion H; auto.
  - inversion H; auto.
Qed.

Lemma frame_config : forall s w fi s' w' c,
  frame s w fi = Done (s', w', c) -> config_buffer w' = config_buffer w.
Proof.
  intros s w fi s' w' c H.
  apply frame_done_inv in H as [Hp _].
  destruct (storage_asset fi) as [sb|]; [|discriminate Hp].
  rewrite prepare_bind_group_some in Hp. inversion Hp. reflexivity.
Qed.

Lemma run_frames_config : forall inps s w s' w' c,
  In (FRan s' w' c) (run_frames s w inps) -> config_buffer w' = config_buffer w.
Proof.
  induction inps as [|fi rest IH]; intros s w s' w' c H; simpl in H; [contradiction|].
  destruct (frame s w fi) as [[[s1 w1] c1]|p] eqn:E.
  - apply frame_config in E as Ec.
    destruct H as [H|H].
    + inversion H; subst. exact Ec.
    + rewrite (IH _ _ _ _ _ H). exact Ec.
  - destruct H as [H|[]]. discriminate H.
Qed.

(** Which pipeline must be compiled for [run] in a state to find it. *)
Definition pipeline_ready (s : ParticleState) (fi : FrameInput) : bool :=
  match selected_pipeline s with
  | None => true
  | Some id => is_ok (get_compute_pipeline_state fi id)
  end.

(** After the node has observed a pipeline [Ok], it stays [Ok] for the rest
    of the session. *)
Definition observed_ready (s : ParticleState) (inputs : list FrameInput) : Prop :=
  Forall (fun fi => pipeline_ready s fi = true) inputs.

Lemma node_update_ready : forall s fi rest s',
  never_reverses init_state (fi :: rest) ->
  never_reverses update_state (fi :: rest) ->
  observed_ready s (fi :: rest) ->
  node_update s fi = Done s' ->
  pipeline_ready s' fi = true /\ observed_ready s' rest.
Proof.
  intros s fi rest s' [Hi _] [Hu _] Hobs H.
  unfold observed_ready in *.
  destruct s as [| |[|[|n]]]; simpl in H.
  - destruct (init_state fi) eqn:E; inversion H; subst;
      try (split; [reflexivity | apply Forall_forall; intros; reflexivity]).
    unfold pipeline_ready; simpl. rewrite E. split; [reflexivity|].
    apply Hi. reflexivity.
  - destruct (update_state fi) eqn:E; inversion H; subst;
      try (inversion Hobs; subst; split; assumption).
    unfold pipeline_ready; simpl. rewrite E. split; [reflexivity|].
    apply Hu. reflexivity.
  - inversion H; subst. inversion Hobs; subst. split; assumption.
  - inversion H; subst. inversion Hobs; subst. split; assumption.
  - discriminate H.
Qed.

Lemma node_run_ready_no_unwrap_panic : forall s w fi msg,
  pipeline_ready s fi = true ->
  node_run s w fi <> Panicked (Panic 381 msg) /\
  node_run s w fi <> Panicked (Panic 391 msg).
Proof.
  intros s w fi msg Hr.
  destruct s; simpl; unfold pipeline_ready in Hr; simpl in Hr.
  - split; discriminate.
  - unfold resource_bind_groups, get_compute_pipeline; simpl.
    destruct (particle_bind_groups w); simpl; [|split; congruence].
    destruct (init_state fi); try discriminate Hr. simpl. split; discriminate.
  - unfold resource_bind_groups, get_compute_pipeline; simpl.
    destruct (particle_bind_groups w); simpl; [|split; congruence].
    destruct (update_state fi); try discriminate Hr. simpl. split; discriminate.
Qed.

Lemma prepare_bind_group_panic_line : forall w ra p,
  prepare_bind_group w ra = Panicked p -> p = Panic 217 unwrap_none_msg.
Proof.
  intros w [sb|] p H; simpl in H; inversion H; reflexivity.
Qed.

Lemma node_update_panic_line : forall s fi l msg,
  node_update s fi = Panicked (Panic l msg) -> l = 333 \/ l = 354.
Proof.
  intros s fi l msg H.
  destruct s as [| |[|[|n]]]; simpl in H.
  - destruct (init_state fi); inversion H; auto.
  - destruct (update_state fi); discriminate H.
  - discriminate H.
  - discriminate H.
  - inversion H; auto.
Qed.

Lemma run_frames_no_unwrap_panic : forall inps s w msg,
  never_reverses init_state inps ->
  never_reverses update_state inps ->
  observed_ready s inps ->
  ~ In (FPanicked (Panic 381 msg)) (run_frames s w inps) /\
  ~ In (FPanicked (Panic 391 msg)) (run_frames s w inps).
Proof.
  induction inps as [|fi rest IH]; intros s w msg Hi Hu Hobs; simpl; [tauto|].
  destruct (frame s w fi) as [[[s1 w1] c1]|p] eqn:E.
  - apply frame_done_inv in E as [_ [Hup _]].
    destruct (node_update_ready _ _ _ _ Hi Hu Hobs Hup) as [_ Hobs'].
    destruct (IH s1 w1 msg (proj2 Hi) (proj2 Hu) Hobs') as [H1 H2].
    split; intros [H|H]; try discriminate H; contradiction.
  - assert (Hne : p <> Panic 381 msg /\ p <> Panic 391 msg).
    { destruct (frame_panicked_inv _ _ _ _ E) as [Hp | [w' [_ [Hp | [s' [Hup Hr]]]]]].
      - apply prepare_bind_group_panic_line in Hp. subst. split; discriminate.
      - destruct p as [l m]. apply node_update_panic_line in Hp.
        split; intros Heq; inversion Heq; lia.
      - destruct (node_update_ready _ _ _ _ Hi Hu Hobs Hup) as [Hr' _].
        destruct (node_run_ready_no_unwrap_panic s' w' fi msg Hr') as [N1 N2].
        split; intros ->; contradiction. }
    destruct Hne as [N1 N2].
    split; intros [H|[]]; inversion H; subst; contradiction.
Qed.

(** ** Lemmas for the remaining code *)

Lemma u32_le_roundtrip : forall n,
  (0 <= n < 2 ^ 32)%Z ->
  u32_from_le_bytes (u32_to_le_bytes n) = Some n.
Proof.
  intros n Hn. unfold u32_to_le_bytes, u32_from_le_bytes.
  pose proof (Z.div_mod n 256 ltac:(lia)) as D0.
  pose proof (Z.div_mod (n / 256) 256 ltac:(lia)) as D1.
  pose proof (Z.div_mod (n / 256 / 256) 256 ltac:(lia)) as D2.
  pose proof (Z.mod_pos_bound n 256 ltac:(lia)) as B0.
  pose proof (Z.mod_pos_bound (n / 256) 256 ltac:(lia)) as B1.
  pose proof (Z.mod_pos_bound (n / 256 / 256) 256 ltac:(lia)) as B2.
  rewrite (Z.mod_small (n / 256 / 256 / 256) 256) by lia.
  f_equal. lia.
Qed.

Lemma u32_le_bytes_range : forall n,
  Forall (fun b => (0 <= b < 256)%Z) (u32_to_le_bytes n).
Proof.
  intros n. unfold u32_to_le_bytes.
  repeat constructor; apply Z.mod_pos_bound; lia.
Qed.

Lemma spawn_particles_meshes : forall ps m mat,
  map mesh (spawn_particles m mat ps) = seq m (List.length ps).
Proof.
  induction ps as [|p ps IH]; intros m mat; simpl; [reflexivity|].
  rewrite IH. reflexivity.
Qed.

Lemma spawn_particles_fields : forall ps m mat,
  map (fun e => (material e, translation e)) (spawn_particles m mat ps)
  = map (fun p => (mat, position p)) ps.
Proof.
  induction ps as [|p ps IH]; intros m mat; simpl; [reflexivity|].
  rewrite IH. reflexivity.
Qed.

Lemma spawn_particles_length : forall ps m mat,
  List.length (spawn_particles m mat ps) = List.length ps.
Proof.
  intros ps m mat.
  rewrite <- (length_map mesh), spawn_particles_meshes, length_seq. reflexivity.
Qed.

(** The world left by a [prepare_bind_group] call that finds the buffer. *)
Lemma frame_resolved : forall s w fi sb,
  storage_asset fi = Some sb ->
  frame s w fi =
  (s' <- node_update s fi ;;
   c <- node_run s' {| particle_bind_groups :=
            Some {| bind_group_serial := bind_groups_created w;
                    bind_group_entries :=
                      [(100, StorageBuffer (buffer_id sb)); (101, ConfigBuffer)] |};
          bind_groups_created := S (bind_groups_created w);
          config_buffer := config_buffer w |} fi ;;
   Done (s', {| particle_bind_groups :=
            Some {| bind_group_serial := bind_groups_created w;
                    bind_group_entries :=
                      [(100, StorageBuffer (buffer_id sb)); (101, ConfigBuffer)] |};
          bind_groups_created := S (bind_groups_created w);
          config_buffer := config_buffer w |}, c)).
Proof. intros s w fi sb H. unfold frame. rewrite H. reflexivity. Qed.

Lemma reachable_shape : forall s,
  reachable s -> s = Loading \/ s = Init \/ s = Update 0 \/ s = Update 1.
Proof.
  intros s Hr. induction Hr as [|s0 fi0 s1 Hr0 IH Hup].
  - left. reflexivity.
  - exact (node_update_reachable_shape s0 fi0 s1 IH Hup).
Qed.

Lemma node_run_panic_line : forall s w fi p,
  particle_bind_groups w <> None ->
  node_run s w fi = Panicked p -> panic_line p = 381 \/ panic_line p = 391.
Proof.
  intros s w fi p Hw H.
  destruct s; simpl in H; [discriminate H| |];
    unfold resource_bind_groups, get_compute_pipeline in H;
    destruct (particle_bind_groups w) as [bg|]; try congruence; simpl in H.
  - destruct (init_state fi); simpl in H; inversion H; subst; simpl; auto.
  - destruct (update_state fi); simpl in H; inversion H; subst; simpl; auto.
Qed.

Lemma frame_panic_line : forall s w fi p,
  reachable s -> frame s w fi = Panicked p ->
  panic_line p = 217 \/ panic_line p = 333 \/ panic_line p = 381 \/ panic_line p = 391.
Proof.
  intros s w fi p Hr H.
  destruct (frame_panicked_inv _ _ _ _ H) as [Hp | [w' [Hp [Hu | [s' [Hu Hrun]]]]]].
  - apply prepare_bind_group_panic_line in Hp. subst. simpl. auto.
  - destruct p as [l m]. simpl.
    destruct (reachable_shape s Hr) as [->|[->|[->| ->]]]; simpl in Hu.
    + destruct (init_state fi); inversion Hu; auto.
    + destruct (update_state fi); discriminate Hu.
    + discriminate Hu.
    + discriminate Hu.
  - assert (Hw : particle_bind_groups w' <> None).
    { destruct (storage_asset fi) as [sb|]; [|discriminate Hp].
      rewrite prepare_bind_group_some in Hp. inversion Hp. discriminate. }
    destruct (node_run_panic_line _ _ _ _ Hw Hrun) as [E|E]; rewrite E; auto.
Qed.

Lemma run_frames_update_ready : forall l w k,
  Forall (fun fi => storage_asset fi <> None /\ init_state fi = Ok /\ update_state fi = Ok) l ->
  map frame_summary (run_frames (Update (if Nat.even k then 0 else 1)) w l)
  = map (fun i => Some (Update (if Nat.even i then 1 else 0), Some "update"))
        (seq k (List.length l)).
Proof.
  induction l as [|fi l IH]; intros w k Hall; [reflexivity|].
  inversion Hall as [|? ? [Hs [Hi Hu]] Hall']; subst.
  destruct (storage_asset fi) as [sb|] eqn:Es; [|congruence].
  cbn [run_frames]. rewrite (frame_resolved _ _ _ _ Es).
  assert (Hup : node_update (Update (if Nat.even k then 0 else 1)) fi
                = Done (Update (if Nat.even k then 1 else 0)))
    by (destruct (Nat.even k); reflexivity).
  rewrite Hup. cbn [bind node_run resource_bind_groups particle_bind_groups].
  unfold get_compute_pipeline, get_compute_pipeline_state. rewrite Hu.
  cbn [bind unwrap map frame_summary dispatched_program entry_point pipeline_entry
       List.length seq].
  f_equal.
  replace (if Nat.even k then 1 else 0) with (if Nat.even (S k) then 0 else 1)
    by (rewrite Nat.even_succ, <- Nat.negb_even; destruct (Nat.even k); reflexivity).
  apply IH. exact Hall'.
Qed.

(** ** Claims *)

(** C1: along any sequence of [ParticleNode::update] calls the state only
    moves forward along Loading -> Init -> Update: a state that has left
    Loading is never Loading later, and a state that has reached Update is
    never Loading or Init later. *)
Theorem update_moves_forward : forall s xs i j si sj,
  i <= j ->
  nth_error (s :: update_trace s xs) i = Some si ->
  nth_error (s :: update_trace s xs) j = Some sj ->
  (si <> Loading -> sj <> Loading) /\
  (is_update si = true -> is_update sj = true).
Proof.
  intros s xs i j si sj Hij Hi Hj.
  pose proof (update_trace_stage_mono xs s i j si sj Hij Hi Hj) as Hs.
  split.
  - intros Hne ->. destruct si; simpl in Hs; try lia. congruence.
  - intros Hu. destruct si; try discriminate; destruct sj; simpl in *; lia || reflexivity.
Qed.

Lemma update_moves_forward_witness :
  (1 <= 3 /\
   nth_error (Loading :: update_trace Loading [fi_pending; fi_init_ok; fi_all_ok; fi_all_ok]) 1
     = Some Loading /\
   nth_error (Loading :: update_trace Loading [fi_pending; fi_init_ok; fi_all_ok; fi_all_ok]) 3
     = Some (Update 1)) /\
  (Loading <> Loading -> Update 1 <> Loading) /\
  (is_update Loading = true -> is_update (Update 1) = true).
Proof.
  split; [split; [lia | split; reflexivity]|].
  apply (update_moves_forward Loading [fi_pending; fi_init_ok; fi_all_ok; fi_all_ok] 1 3);
    [lia | reflexivity | reflexivity].
Defined.

(** C2 (as the code does it): [prepare_bind_group] has no build-once latch;
    [n] calls with a resolved storage buffer create [n] bind groups. *)
Theorem prepare_bind_group_rebuilds_each_call : forall n w sb,
  exists w', prepare_bind_group_n n w (Some sb) = Done w' /\
             bind_groups_created w' = bind_groups_created w + n.
Proof.
  induction n as [|n IH]; intros w sb.
  - exists w. split; [reflexivity | lia].
  - change (prepare_bind_group_n (S n) w (Some sb)) with
      (bind (prepare_bind_group w (Some sb))
            (fun w' => prepare_bind_group_n n w' (Some sb))).
    rewrite prepare_bind_group_some. cbn [bind].
    match goal with
    | |- exists _, prepare_bind_group_n n ?w1 _ = _ /\ _ =>
        destruct (IH w1 sb) as [w' [E C]]
    end.
    exists w'. split; [exact E|]. simpl in C. lia.
Qed.

(** C2 fails at n = 2: two calls from the initial world create two bind
    groups, not one. *)
Lemma prepare_bind_group_twice_builds_two :
  exists w', prepare_bind_group_n 2 initial_world (Some sb0) = Done w' /\
             bind_groups_created w' = 2.
Proof. eexists. split; reflexivity. Qed.

(** C3 counterexample: with the storage buffer not resolvable,
    [prepare_bind_group] does not return (it panics), so it does not defer. *)
Lemma prepare_bind_group_unresolved_not_deferred :
  ~ (exists w', prepare_bind_group initial_world None = Done w').
Proof. intros [w' H]. discriminate H. Qed.

(** C3 (amended): when the storage buffer is not resolvable,
    [prepare_bind_group] panics at the [unwrap] of line 217 before any bind
    group is created, and so does the whole frame, before the node runs. *)
Theorem prepare_bind_group_unresolved_panics : forall w s fi,
  prepare_bind_group w None = Panicked (Panic 217 unwrap_none_msg) /\
  (storage_asset fi = None ->
   frame s w fi = Panicked (Panic 217 unwrap_none_msg)).
Proof.
  intros w s fi. split; [reflexivity|].
  intros H. unfold frame. rewrite H. reflexivity.
Qed.

Lemma prepare_bind_group_unresolved_panics_witness :
  storage_asset {| storage_asset := None; init_state := Ok; update_state := Ok |} = None /\
  frame Loading initial_world {| storage_asset := None; init_state := Ok; update_state := Ok |}
  = Panicked (Panic 217 unwrap_none_msg).
Proof.
  split; [reflexivity|].
  apply (proj2 (prepare_bind_group_unresolved_panics initial_world Loading
                  {| storage_asset := None; init_state := Ok; update_state := Ok |})).
  reflexivity.
Defined.

(** C4: over any sequence of frames from the initial Loading state, a frame
    that dispatches the update program comes strictly after a frame that
    dispatched the init program, and a frame that dispatches the init
    program binds the [ParticleBindGroups] resource present in that frame. *)
Theorem dispatch_order : forall w inps i s' w' c,
  nth_error (run_frames Loading w inps) i = Some (FRan s' w' c) ->
  (dispatched_program c = Some "update" ->
   exists j s'' w'' c'', j < i /\
     nth_error (run_frames Loading w inps) j = Some (FRan s'' w'' c'') /\
     dispatched_program c'' = Some "init") /\
  (dispatched_program c = Some "init" ->
   exists bg p grid, c = Dispatch 0 bg p grid /\ particle_bind_groups w' = Some bg).
Proof.
  intros w inps i s' w' c H. split.
  - revert w i H. induction inps as [|fi rest IH]; intros w i H Hupd; simpl in H.
    + destruct i; discriminate H.
    + simpl. destruct (frame Loading w fi) as [[[s1 w1] c1]|p] eqn:E;
        [|destruct i as [|[|i]]; discriminate H].
      destruct (frame_from_loading _ _ _ _ _ E) as [[-> ->] | [-> Hinit]].
      * destruct i as [|i]; simpl in H.
        -- inversion H; subst. discriminate Hupd.
        -- destruct (IH w1 i H Hupd) as [j [s2 [w2 [c2 [Hj [Hn Hp]]]]]].
           exists (S j), s2, w2, c2. split; [lia|]. split; [exact Hn | exact Hp].
      * destruct i as [|i]; simpl in H.
        -- inversion H; subst. rewrite Hinit in Hupd. discriminate Hupd.
        -- exists 0, Init, w1, c1. split; [lia|]. split; [reflexivity | exact Hinit].
  - intros Hinit.
    destruct (run_frames_ran_inv _ _ _ _ _ _ _ H) as [s0 [w0 [fi E]]].
    destruct (frame_dispatch_bind_group _ _ _ _ _ _ E) as [-> | Hd];
      [discriminate Hinit | exact Hd].
Qed.

Lemma dispatch_order_witness :
  nth_error (run_frames Loading initial_world [fi_pending; fi_init_ok; fi_all_ok]) 2
    = Some (FRan (Update 1) (match prepare_bind_group_n 3 initial_world (Some sb0) with
                             | Done w => w | Panicked _ => initial_world end)
                 (Dispatch 0 {| bind_group_serial := 2;
                                bind_group_entries :=
                                  [(100, StorageBuffer 7); (101, ConfigBuffer)] |}
                           {| entry_point := "update" |} (40, 22, 1))) /\
  exists j s'' w'' c'', j < 2 /\
    nth_error (run_frames Loading initial_world [fi_pending; fi_init_ok; fi_all_ok]) j
      = Some (FRan s'' w'' c'') /\
    dispatched_program c'' = Some "init".
Proof.
  split; [reflexivity|].
  refine (proj1 (dispatch_order initial_world [fi_pending; fi_init_ok; fi_all_ok] 2 _ _ _ _) _);
    reflexivity.
Defined.

(** C5: when the Loading state polls the init pipeline and finds it failed,
    the process panics with a message naming "compute.wgsl" and carrying
    the compiler error; the session ends there, so nothing is dispatched
    afterwards. *)
Theorem init_compile_failure_aborts : forall w fi rest e,
  init_state fi = Err e ->
  storage_asset fi <> None ->
  exists msg,
    node_update Loading fi = Panicked (Panic 333 msg) /\
    run_frames Loading w (fi :: rest) = [FPanicked (Panic 333 msg)] /\
    contains msg "compute.wgsl" /\ contains msg e.
Proof.
  intros w fi rest e He Hs.
  exists ("Initializing assets/" ++ SHADER_COMPUTE_PATH ++ ":" ++ newline ++ e).
  split; [simpl; rewrite He; reflexivity|].
  split.
  - simpl. unfold frame.
    destruct (storage_asset fi) as [sb|]; [|congruence].
    simpl. rewrite He. reflexivity.
  - split.
    + exists "Initializing assets/", (":" ++ newline ++ e). reflexivity.
    + exists ("Initializing assets/compute.wgsl:" ++ newline), "".
      rewrite string_append_empty_r. reflexivity.
Qed.

Lemma init_compile_failure_aborts_witness :
  init_state {| storage_asset := Some sb0; init_state := Err "bad"; update_state := Queued |}
    = Err "bad" /\
  storage_asset {| storage_asset := Some sb0; init_state := Err "bad"; update_state := Queued |}
    <> None /\
  exists msg,
    node_update Loading {| storage_asset := Some sb0; init_state := Err "bad"; update_state := Queued |}
      = Panicked (Panic 333 msg) /\
    run_frames Loading initial_world
      [{| storage_asset := Some sb0; init_state := Err "bad"; update_state := Queued |}; fi_all_ok]
      = [FPanicked (Panic 333 msg)] /\
    contains msg "compute.wgsl" /\ contains msg "bad".
Proof.
  split; [reflexivity|]. split; [discriminate|].
  apply (init_compile_failure_aborts initial_world
           {| storage_asset := Some sb0; init_state := Err "bad"; update_state := Queued |}
           [fi_all_ok] "bad"); [reflexivity | discriminate].
Defined.

(** C6: from Update(1) the phase alternates 0,1,0,... on each subsequent
    [update] call (so the states run 1,0,1,0,...), and [run] records the same
    commands for every phase: it binds and dispatches the update pipeline. *)
Theorem update_phase_alternates : forall xs i,
  i < List.length xs ->
  nth_error (update_trace (Update 1) xs) i
    = Some (Update (if Nat.even i then 0 else 1)) /\
  (forall n m w fi, node_run (Update n) w fi = node_run (Update m) w fi) /\
  (forall n w fi c, node_run (Update n) w fi = Done c ->
                    dispatched_program c = Some "update").
Proof.
  intros xs i Hi. split; [|split].
  - apply (update_trace_alternates xs 1 i); lia.
  - reflexivity.
  - intros n w fi c H. apply node_run_spec in H. simpl in H.
    destruct H as [bg [_ [_ ->]]]. reflexivity.
Qed.

Lemma update_phase_alternates_witness :
  2 < List.length [fi_all_ok; fi_pending; fi_all_ok] /\
  nth_error (update_trace (Update 1) [fi_all_ok; fi_pending; fi_all_ok]) 2 = Some (Update 0).
Proof.
  split; [simpl; lia|].
  apply (proj1 (update_phase_alternates [fi_all_ok; fi_pending; fi_all_ok] 2 ltac:(simpl; lia))).
Defined.

(** C7: SIZE is (320, 180) and WORKGROUP_SIZE is 8, and every dispatch
    [run] records, in Init or in Update, uses the grid (40, 22, 1). *)
Theorem dispatch_grid : forall s w fi g bg p grid,
  node_run s w fi = Done (Dispatch g bg p grid) ->
  SIZE = (320, 180) /\ WORKGROUP_SIZE = 8 /\
  (s = Init \/ exists phase, s = Update phase) /\ grid = (40, 22, 1).
Proof.
  intros s w fi g bg p grid H.
  split; [reflexivity|]. split; [reflexivity|].
  apply node_run_spec in H.
  destruct s; simpl in H.
  - discriminate H.
  - destruct H as [bg' [_ [_ Hc]]]. inversion Hc. auto.
  - destruct H as [bg' [_ [_ Hc]]]. inversion Hc. eauto.
Qed.

Lemma dispatch_grid_witness :
  node_run Init (match prepare_bind_group initial_world (Some sb0) with
                 | Done w => w | Panicked _ => initial_world end) fi_init_ok
    = Done (Dispatch 0 {| bind_group_serial := 0;
                          bind_group_entries := [(100, StorageBuffer 7); (101, ConfigBuffer)] |}
                     {| entry_point := "init" |} (40, 22, 1)) /\
  (40, 22, 1) = (40, 22, 1).
Proof.
  split; [reflexivity|].
  apply (dispatch_grid Init
           (match prepare_bind_group initial_world (Some sb0) with
            | Done w => w | Panicked _ => initial_world end) fi_init_ok 0
           {| bind_group_serial := 0;
              bind_group_entries := [(100, StorageBuffer 7); (101, ConfigBuffer)] |}
           {| entry_point := "init" |}).
  reflexivity.
Defined.

(** C8: every state reachable from [ParticleNode::default] is Loading, Init,
    Update(0) or Update(1), so the [unreachable!()] arm (line 354) never runs
    from a reachable state; a phase of 2 or more would panic there. *)
Theorem reachable_states : forall s fi n msg,
  reachable s ->
  (s = Loading \/ s = Init \/ s = Update 0 \/ s = Update 1) /\
  node_update s fi <> Panicked (Panic 354 msg) /\
  (2 <= n -> node_update (Update n) fi
             = Panicked (Panic 354 "internal error: entered unreachable code")).
Proof.
  intros s fi n msg Hr.
  assert (Hs : s = Loading \/ s = Init \/ s = Update 0 \/ s = Update 1).
  { induction Hr as [|s0 fi0 s1 Hr0 IH Hup].
    - left. reflexivity.
    - exact (node_update_reachable_shape s0 fi0 s1 IH Hup). }
  split; [exact Hs|]. split.
  - destruct Hs as [->|[->|[->| ->]]]; simpl.
    + destruct (init_state fi); discriminate.
    + destruct (update_state fi); discriminate.
    + discriminate.
    + discriminate.
  - intros Hn. destruct n as [|[|n]]; [lia | lia | reflexivity].
Qed.

Lemma reachable_states_witness :
  reachable Init /\ 2 <= 5 /\
  node_update (Update 5) fi_all_ok
    = Panicked (Panic 354 "internal error: entered unreachable code").
Proof.
  assert (Hr : reachable Init)
    by (apply (reachable_update Loading fi_all_ok Init reachable_default); reflexivity).
  split; [exact Hr|]. split; [lia|].
  apply (proj2 (proj2 (reachable_states Init fi_all_ok 5 "" Hr))). lia.
Defined.

(** C9: [setup] builds the config once with particle_count = 1000, the
    length of the particle array, and no frame changes the config buffer:
    in every frame of the session it still holds particle_count = 1000. *)
Theorem particle_count_fixed : forall inps s' w' c,
  particle_count (snd setup) = 1000 /\
  List.length (fst setup) = particle_count (snd setup) /\
  (In (FRan s' w' c) (run_frames ParticleNode_default initial_world inps) ->
   config_buffer w' = snd setup /\ particle_count (config_buffer w') = 1000).
Proof.
  intros inps s' w' c.
  split; [reflexivity|]. split; [reflexivity|].
  intros H. apply run_frames_config in H. rewrite H. split; reflexivity.
Qed.

Lemma particle_count_fixed_witness :
  In (FRan (Update 1)
        {| particle_bind_groups :=
             Some {| bind_group_serial := 1;
                     bind_group_entries := [(100, StorageBuffer 7); (101, ConfigBuffer)] |};
           bind_groups_created := 2; config_buffer := snd setup |}
        (Dispatch 0 {| bind_group_serial := 1;
                       bind_group_entries := [(100, StorageBuffer 7); (101, ConfigBuffer)] |}
                  {| entry_point := "update" |} (40, 22, 1)))
     (run_frames ParticleNode_default initial_world [fi_init_ok; fi_all_ok]) /\
  particle_count (snd setup) = 1000.
Proof.
  split; [simpl; auto|].
  exact (proj1 (particle_count_fixed [] Loading initial_world NoDispatch)).
Defined.

(** C10: if neither pipeline's compile state leaves [Ok] once reached, no
    frame from the initial state panics at the [unwrap] of the init pipeline
    lookup (line 381) or of the update pipeline lookup (line 391). *)
Theorem pipeline_lookup_never_fails : forall w inps msg,
  never_reverses init_state inps ->
  never_reverses update_state inps ->
  ~ In (FPanicked (Panic 381 msg)) (run_frames ParticleNode_default w inps) /\
  ~ In (FPanicked (Panic 391 msg)) (run_frames ParticleNode_default w inps).
Proof.
  intros w inps msg Hi Hu.
  apply run_frames_no_unwrap_panic; [exact Hi | exact Hu |].
  apply Forall_forall. reflexivity.
Qed.

Lemma pipeline_lookup_never_fails_witness :
  never_reverses init_state [fi_pending; fi_init_ok; fi_all_ok] /\
  never_reverses update_state [fi_pending; fi_init_ok; fi_all_ok] /\
  ~ In (FPanicked (Panic 381 unwrap_none_msg))
       (run_frames ParticleNode_default initial_world [fi_pending; fi_init_ok; fi_all_ok]).
Proof.
  assert (Hi : never_reverses init_state [fi_pending; fi_init_ok; fi_all_ok]).
  { simpl. repeat split; intros; repeat constructor; discriminate. }
  assert (Hu : never_reverses update_state [fi_pending; fi_init_ok; fi_all_ok]).
  { simpl. repeat split; intros; repeat constructor; discriminate. }
  split; [exact Hi|]. split; [exact Hu|].
  exact (proj1 (pipeline_lookup_never_fails initial_world _ unwrap_none_msg Hi Hu)).
Defined.

(** ** Further properties of the code *)

(** X1: every bind group [prepare_bind_group] creates matches the layout
    built by [ParticleComputePipeline::from_world], which is the only group
    layout of both compute pipelines: binding 100 is the storage buffer
    (STORAGE usage), binding 101 the config buffer (UNIFORM usage, at least
    [ParticleConfig::min_size()] bytes), with no other binding. *)
Theorem prepare_bind_group_matches_layout : forall w ra w',
  prepare_bind_group w ra = Done w' ->
  exists bg, particle_bind_groups w' = Some bg /\
    bind_group_matches (pipeline_layout from_world) (bind_group_entries bg) = true /\
    desc_layout (init_pipeline from_world) = [pipeline_layout from_world] /\
    desc_layout (update_pipeline from_world) = [pipeline_layout from_world].
Proof.
  intros w [sb|] w' H; [|discriminate H].
  rewrite prepare_bind_group_some in H. inversion H; subst.
  eexists. split; [reflexivity|]. split; [|split; reflexivity].
  reflexivity.
Qed.

Lemma prepare_bind_group_matches_layout_witness :
  prepare_bind_group initial_world (Some sb0)
    = Done {| particle_bind_groups :=
                Some {| bind_group_serial := 0;
                        bind_group_entries := [(100, StorageBuffer 7); (101, ConfigBuffer)] |};
              bind_groups_created := 1; config_buffer := snd setup |} /\
  bind_group_matches (pipeline_layout from_world)
    [(100, StorageBuffer 7); (101, ConfigBuffer)] = true.
Proof.
  split; [reflexivity|].
  destruct (prepare_bind_group_matches_layout initial_world (Some sb0)
              {| particle_bind_groups :=
                   Some {| bind_group_serial := 0;
                           bind_group_entries := [(100, StorageBuffer 7); (101, ConfigBuffer)] |};
                 bind_groups_created := 1; config_buffer := snd setup |} eq_refl)
    as [bg [Hbg [Hm _]]].
  inversion Hbg; subst. exact Hm.
Defined.

(** X2: the config buffer's contents, [cast_slice(&[ParticleConfig])], are
    four bytes that read back as the same [u32] particle_count, which is
    exactly [ParticleConfig::min_size()], the minimum binding size of
    binding 101; setup's count 1000 is in range. *)
Theorem config_bytes_roundtrip : forall c,
  (Z.of_nat (particle_count c) < 2 ^ 32)%Z ->
  u32_from_le_bytes (config_bytes c) = Some (Z.of_nat (particle_count c)) /\
  Forall (fun b => (0 <= b < 256)%Z) (config_bytes c) /\
  List.length (config_bytes c) = ParticleConfig_min_size.
Proof.
  intros c Hc. unfold config_bytes. split; [|split].
  - apply u32_le_roundtrip. lia.
  - apply u32_le_bytes_range.
  - reflexivity.
Qed.

Lemma config_bytes_roundtrip_witness :
  (Z.of_nat (particle_count (snd setup)) < 2 ^ 32)%Z /\
  u32_from_le_bytes (config_bytes (snd setup)) = Some 1000%Z.
Proof.
  assert (H : (Z.of_nat (particle_count (snd setup)) < 2 ^ 32)%Z) by (simpl; lia).
  split; [exact H|].
  exact (proj1 (config_bytes_roundtrip (snd setup) H)).
Defined.

(** X3: setup spawns one mesh entity per particle, as many as the config's
    particle_count; each gets its own newly added mesh asset (consecutive,
    distinct ids), the one shared material, and the origin as translation. *)
Theorem setup_entities_spec : forall m0 mat,
  List.length (setup_entities m0 mat) = particle_count (snd setup) /\
  map mesh (setup_entities m0 mat) = seq m0 (particle_count (snd setup)) /\
  NoDup (map mesh (setup_entities m0 mat)) /\
  Forall (fun e => material e = mat /\ translation e = Vec3_ZERO) (setup_entities m0 mat).
Proof.
  intros m0 mat. unfold setup_entities.
  assert (Hl : List.length (fst setup) = particle_count (snd setup))
    by (unfold setup; cbn [fst snd particle_count]; apply repeat_length).
  split; [|split; [|split]].
  - rewrite spawn_particles_length. exact Hl.
  - rewrite spawn_particles_meshes, Hl. reflexivity.
  - rewrite spawn_particles_meshes. apply seq_NoDup.
  - apply Forall_forall. intros e He.
    assert (Hin : In (material e, translation e)
                     (map (fun p => (mat, position p)) (fst setup))).
    { rewrite <- spawn_particles_fields with (m := m0).
      apply in_map_iff. exists e. split; [reflexivity | exact He]. }
    apply in_map_iff in Hin as [p [Hp Hpin]].
    unfold setup in Hpin; cbn [fst] in Hpin. apply repeat_spec in Hpin. subst p.
    inversion Hp. split; reflexivity.
Qed.

(** X4: in every completed frame of a session, [prepare_bind_group] has
    created one more bind group: after frame [i] (counting from 0) the world
    holds bind group number [created + i] built from that frame's storage
    buffer, and any dispatch of the frame binds exactly that bind group at
    group 0. *)
Theorem frame_binds_fresh_bind_group : forall inps s w i s' w' c,
  nth_error (run_frames s w inps) i = Some (FRan s' w' c) ->
  bind_groups_created w' = bind_groups_created w + S i /\
  exists fi sb, nth_error inps i = Some fi /\ storage_asset fi = Some sb /\
    let bg := {| bind_group_serial := bind_groups_created w + i;
                 bind_group_entries :=
                   [(100, StorageBuffer (buffer_id sb)); (101, ConfigBuffer)] |} in
    particle_bind_groups w' = Some bg /\
    (c = NoDispatch \/ exists p grid, c = Dispatch 0 bg p grid).
Proof.
  induction inps as [|fi rest IH]; intros s w i s' w' c H; simpl in H;
    [destruct i; discriminate H|].
  destruct (frame s w fi) as [[[s1 w1] c1]|p] eqn:E;
    [|destruct i as [|[|i]]; discriminate H].
  pose proof E as E'.
  apply frame_done_inv in E' as [Hp [_ Hr]].
  destruct (storage_asset fi) as [sb|] eqn:Es; [|discriminate Hp].
  rewrite prepare_bind_group_some in Hp. inversion Hp; subst w1. clear Hp.
  destruct i as [|i]; simpl in H.
  - inversion H; subst. split; [simpl; lia|].
    exists fi, sb. split; [reflexivity|]. split; [exact Es|].
    rewrite Nat.add_0_r. split; [reflexivity|].
    apply node_run_spec in Hr.
    destruct (selected_pipeline s'); [right | left; exact Hr].
    destruct Hr as [bg [Hbg [_ ->]]]. inversion Hbg; subst. eauto.
  - destruct (IH _ _ _ _ _ _ H) as [Hc [fi' [sb' [Hn [Hs Hrest]]]]].
    simpl in Hc. split; [lia|].
    exists fi', sb'. split; [exact Hn|]. split; [exact Hs|].
    replace (bind_groups_created w + S i) with (S (bind_groups_created w + i)) in * by lia.
    simpl in Hrest. replace (bind_groups_created w + S i) with (S (bind_groups_created w) + i) by lia.
    exact Hrest.
Qed.

Lemma frame_binds_fresh_bind_group_witness :
  nth_error (run_frames Loading initial_world [fi_init_ok; fi_all_ok]) 1
    = Some (FRan (Update 1)
              {| particle_bind_groups :=
                   Some {| bind_group_serial := 1;
                           bind_group_entries := [(100, StorageBuffer 7); (101, ConfigBuffer)] |};
                 bind_groups_created := 2; config_buffer := snd setup |}
              (Dispatch 0 {| bind_group_serial := 1;
                             bind_group_entries := [(100, StorageBuffer 7); (101, ConfigBuffer)] |}
                        {| entry_point := "update" |} (40, 22, 1))) /\
  bind_groups_created {| particle_bind_groups := None; bind_groups_created := 2;
                         config_buffer := snd setup |} = 0 + 2.
Proof.
  assert (H : nth_error (run_frames Loading initial_world [fi_init_ok; fi_all_ok]) 1
    = Some (FRan (Update 1)
              {| particle_bind_groups :=
                   Some {| bind_group_serial := 1;
                           bind_group_entries := [(100, StorageBuffer 7); (101, ConfigBuffer)] |};
                 bind_groups_created := 2; config_buffer := snd setup |}
              (Dispatch 0 {| bind_group_serial := 1;
                             bind_group_entries := [(100, StorageBuffer 7); (101, ConfigBuffer)] |}
                        {| entry_point := "update" |} (40, 22, 1)))) by reflexivity.
  split; [exact H|].
  exact (proj1 (frame_binds_fresh_bind_group _ _ _ _ _ _ _ H)).
Defined.

(** X5: a session started from [ParticleNode::default] can only end in a
    panic at the storage-buffer [unwrap] (line 217), the init-pipeline
    compile-failure [panic!] (line 333), or a pipeline [unwrap] in [run]
    (lines 381, 391): never at the [unreachable!()] arm (line 354), nor at a
    missing [ParticleBindGroups] resource (lines 377, 387). *)
Theorem session_panic_lines : forall w inps p,
  In (FPanicked p) (run_frames ParticleNode_default w inps) ->
  panic_line p = 217 \/ panic_line p = 333 \/ panic_line p = 381 \/ panic_line p = 391.
Proof.
  intros w inps p.
  assert (Hr : reachable ParticleNode_default) by constructor.
  revert Hr. generalize ParticleNode_default as s. revert w.
  induction inps as [|fi rest IH]; intros w s Hr H; simpl in H; [contradiction|].
  destruct (frame s w fi) as [[[s1 w1] c1]|p1] eqn:E.
  - destruct H as [H|H]; [discriminate H|].
    apply frame_done_inv in E as [_ [Hu _]].
    exact (IH w1 s1 (reachable_update s fi s1 Hr Hu) H).
  - destruct H as [H|[]]. inversion H; subst.
    exact (frame_panic_line _ _ _ _ Hr E).
Qed.

Lemma session_panic_lines_witness :
  In (FPanicked (Panic 217 unwrap_none_msg))
     (run_frames ParticleNode_default initial_world
        [fi_all_ok; {| storage_asset := None; init_state := Ok; update_state := Ok |}]) /\
  panic_line (Panic 217 unwrap_none_msg) = 217.
Proof.
  assert (H : In (FPanicked (Panic 217 unwrap_none_msg))
     (run_frames ParticleNode_default initial_world
        [fi_all_ok; {| storage_asset := None; init_state := Ok; update_state := Ok |}]))
    by (simpl; auto).
  split; [exact H|].
  destruct (session_panic_lines _ _ _ H) as [E|[E|[E|E]]]; exact E || discriminate E.
Defined.

(** X6: while the update pipeline is not ready (still queued, creating, or
    failed to compile), the node stays in Init and dispatches the init
    program again in every frame; a compile error of the update pipeline
    is never reported. *)
Theorem init_repeats_until_update_ready : forall inps w,
  Forall (fun fi => storage_asset fi <> None /\ init_state fi = Ok /\
                    update_state fi <> Ok) inps ->
  map frame_summary (run_frames Init w inps)
  = repeat (Some (Init, Some "init")) (List.length inps).
Proof.
  induction inps as [|fi rest IH]; intros w Hall; [reflexivity|].
  inversion Hall as [|? ? [Hs [Hi Hu]] Hall']; subst.
  destruct (storage_asset fi) as [sb|] eqn:Es; [|congruence].
  cbn [run_frames]. rewrite (frame_resolved _ _ _ _ Es).
  assert (Hup : node_update Init fi = Done Init)
    by (simpl; destruct (update_state fi); congruence).
  rewrite Hup. cbn [bind node_run resource_bind_groups particle_bind_groups].
  unfold get_compute_pipeline, get_compute_pipeline_state. rewrite Hi.
  cbn [bind unwrap map frame_summary dispatched_program entry_point pipeline_entry
       List.length repeat].
  f_equal. apply IH. exact Hall'.
Qed.

Lemma init_repeats_until_update_ready_witness :
  Forall (fun fi => storage_asset fi <> None /\ init_state fi = Ok /\ update_state fi <> Ok)
    [fi_init_ok; {| storage_asset := Some sb0; init_state := Ok; update_state := Err "e" |}] /\
  map frame_summary
    (run_frames Init initial_world
       [fi_init_ok; {| storage_asset := Some sb0; init_state := Ok; update_state := Err "e" |}])
  = [Some (Init, Some "init"); Some (Init, Some "init")].
Proof.
  assert (H : Forall (fun fi => storage_asset fi <> None /\ init_state fi = Ok /\
                                update_state fi <> Ok)
    [fi_init_ok; {| storage_asset := Some sb0; init_state := Ok; update_state := Err "e" |}]).
  { repeat constructor; discriminate. }
  split; [exact H|].
  exact (init_repeats_until_update_ready _ initial_world H).
Defined.

(** X7: while the init pipeline is still queued or being created, the node
    stays in Loading and records no dispatch, frame after frame. *)
Theorem loading_waits_for_init_pipeline : forall inps w,
  Forall (fun fi => storage_asset fi <> None /\
                    (init_state fi = Queued \/ init_state fi = Creating)) inps ->
  map frame_summary (run_frames Loading w inps)
  = repeat (Some (Loading, None)) (List.length inps).
Proof.
  induction inps as [|fi rest IH]; intros w Hall; [reflexivity|].
  inversion Hall as [|? ? [Hs Hi] Hall']; subst.
  destruct (storage_asset fi) as [sb|] eqn:Es; [|congruence].
  cbn [run_frames]. rewrite (frame_resolved _ _ _ _ Es).
  assert (Hup : node_update Loading fi = Done Loading)
    by (simpl; destruct Hi as [-> | ->]; reflexivity).
  rewrite Hup. cbn [bind node_run map frame_summary dispatched_program List.length repeat].
  f_equal. apply IH. exact Hall'.
Qed.

Lemma loading_waits_for_init_pipeline_witness :
  Forall (fun fi => storage_asset fi <> None /\
                    (init_state fi = Queued \/ init_state fi = Creating))
    [fi_pending; fi_pending] /\
  map frame_summary (run_frames Loading initial_world [fi_pending; fi_pending])
  = [Some (Loading, None); Some (Loading, None)].
Proof.
  assert (H : Forall (fun fi => storage_asset fi <> None /\
                    (init_state fi = Queued \/ init_state fi = Creating))
    [fi_pending; fi_pending]).
  { repeat constructor; try discriminate; right; reflexivity. }
  split; [exact H|].
  exact (loading_waits_for_init_pipeline _ initial_world H).
Defined.

(** X8: when both pipelines are ready from the first frame on, the init
    program is dispatched exactly once, in the first frame (the Loading ->
    Init transition and the dispatch happen in the same frame), and every
    later frame dispatches the update program, the state alternating
    Update(1), Update(0), ... *)
Theorem ready_session_dispatches : forall fi rest w,
  Forall (fun fi => storage_asset fi <> None /\ init_state fi = Ok /\
                    update_state fi = Ok) (fi :: rest) ->
  map frame_summary (run_frames Loading w (fi :: rest))
  = Some (Init, Some "init")
    :: map (fun i => Some (Update (if Nat.even i then 1 else 0), Some "update"))
           (seq 0 (List.length rest)).
Proof.
  intros fi rest w Hall.
  inversion Hall as [|? ? [Hs [Hi Hu]] Hall']; subst.
  destruct (storage_asset fi) as [sb|] eqn:Es; [|congruence].
  cbn [run_frames]. rewrite (frame_resolved _ _ _ _ Es).
  assert (Hup : node_update Loading fi = Done Init) by (simpl; rewrite Hi; reflexivity).
  rewrite Hup. cbn [bind node_run resource_bind_groups particle_bind_groups].
  unfold get_compute_pipeline at 1, get_compute_pipeline_state at 1. rewrite Hi.
  cbn [bind unwrap map frame_summary dispatched_program entry_point pipeline_entry].
  f_equal.
  destruct rest as [|fi2 rest]; [reflexivity|].
  inversion Hall' as [|? ? [Hs2 [Hi2 Hu2]] Hall'']; subst.
  destruct (storage_asset fi2) as [sb2|] eqn:Es2; [|congruence].
  cbn [run_frames]. rewrite (frame_resolved _ _ _ _ Es2).
  assert (Hup2 : node_update Init fi2 = Done (Update 1)) by (simpl; rewrite Hu2; reflexivity).
  rewrite Hup2. cbn [bind node_run resource_bind_groups particle_bind_groups].
  unfold get_compute_pipeline at 1, get_compute_pipeline_state at 1. rewrite Hu2.
  cbn [bind unwrap map frame_summary dispatched_program entry_point pipeline_entry
       List.length seq].
  f_equal.
  apply (run_frames_update_ready rest _ 1 Hall'').
Qed.

Lemma ready_session_dispatches_witness :
  Forall (fun fi => storage_asset fi <> None /\ init_state fi = Ok /\ update_state fi = Ok)
    [fi_all_ok; fi_all_ok; fi_all_ok] /\
  map frame_summary (run_frames Loading initial_world [fi_all_ok; fi_all_ok; fi_all_ok])
  = [Some (Init, Some "init"); Some (Update 1, Some "update"); Some (Update 0, Some "update")].
Proof.
  assert (H : Forall (fun fi => storage_asset fi <> None /\ init_state fi = Ok /\
                                update_state fi = Ok) [fi_all_ok; fi_all_ok; fi_all_ok]).
  { repeat constructor; discriminate. }
  split; [exact H|].
  exact (ready_session_dispatches fi_all_ok [fi_all_ok; fi_all_ok] initial_world H).
Defined.
